(** * The card index of [src/main.py]: build, persist, load, identify

    [build_index_inline] embeds every catalogue row whose picture exists and
    writes three artifacts; [identify_first_image_inline] loads them back and
    ranks the stored vectors against the first catalogue picture.

    The file system is a finite map from paths to files, Python exceptions
    are a sum type, [print] appends to a list of lines.  float32 arithmetic
    (the encoder, [z / z.norm], the inner product) is kept abstract. *)

From Stdlib Require Import Ascii String ZArith Lia.
From stdpp Require Import base strings list gmap pretty.


(** ** Settings (lines 21-26) *)

Definition CATALOG_DIR : string := "data/catalog".
Definition CSV_PATH    : string := CATALOG_DIR +:+ "/cards.csv".
Definition FAISS_PATH  : string := CATALOG_DIR +:+ "/embeddings.faiss".
Definition IDS_NPY     : string := CATALOG_DIR +:+ "/ids.npy".
Definition META_JSON   : string := CATALOG_DIR +:+ "/id_to_meta.json".

(** ** Rows and metadata *)

(** One [df.iterrows()] row, every cell as [str(...)] renders it. *)
Record Row := {
  row_id : string;
  row_name : string;
  row_set : string;
  row_number : string;
  row_hp : string;
  row_image_path : string
}.

(** The value stored under [meta[cid]] (lines 135-141). *)
Record Meta := {
  name : string;
  set_ : string;
  number : string;
  hp : option N;
  image_path : string
}.

(** [str.isdigit] on ASCII text: non-empty, decimal digits only. *)
Definition is_digit (c : ascii) : bool :=
  let n := N_of_ascii c in (48 <=? n)%N && (n <=? 57)%N.

Fixpoint all_digits (s : string) : bool :=
  match s with
  | EmptyString => true
  | String c s' => is_digit c && all_digits s'
  end.

Definition isdigit (s : string) : bool :=
  match s with
  | EmptyString => false
  | _ => all_digits s
  end.

(** [int(...)] of a string of decimal digits. *)
Fixpoint int_digits (acc : N) (s : string) : N :=
  match s with
  | EmptyString => acc
  | String c s' => int_digits (10 * acc + (N_of_ascii c - 48))%N s'
  end.

Definition meta_of_row (row : Row) : Meta :=
  {| name := row_name row;
     set_ := row_set row;
     number := row_number row;
     hp := if isdigit (row_hp row) then Some (int_digits 0 (row_hp row)) else None;
     image_path := row_image_path row |}.

(** ** Python dictionaries

    A [dict] keeps its keys in insertion order, and [json.dump] writes them in
    that order: assigning to a key that is present replaces the value where
    it stands, a new key goes to the end. *)

Definition dict (V : Type) : Type := list (string * V).

Fixpoint dict_set {V} (k : string) (v : V) (d : dict V) : dict V :=
  match d with
  | [] => [(k, v)]
  | (k', v') :: d' =>
      if String.eqb k k' then (k, v) :: d' else (k', v') :: dict_set k v d'
  end.

Fixpoint dict_get {V} (k : string) (d : dict V) : option V :=
  match d with
  | [] => None
  | (k', v') :: d' => if String.eqb k k' then Some v' else dict_get k d'
  end.

Definition dict_keys {V} (d : dict V) : list string := d.*1.

(** ** Numbers and pictures

    The encoder, the division by the norm and the inner product all run in
    float32; none of that arithmetic is modelled.  The program only moves
    these values around, so they are parameters. *)

Class Backend := {
  image : Type;                          (* a decoded RGB picture *)
  vec : Type;                            (* one float32 row of the encoder's width *)
  score : Type;                          (* a float32 similarity *)
  encode_image : image → vec;            (* preprocess, then model.encode_image *)
  l2_normalize : vec → vec;              (* z / z.norm(dim=-1, keepdim=True) *)
  inner_product : vec → vec → score;
  score_ltb : score → score → bool;
  lowest : score                         (* what an unfilled result slot holds *)
}.

(** Lines 128-132 and 179-183: encode, then divide by the norm. *)
Definition embed `{Backend} (im : image) : vec := l2_normalize (encode_image im).

(** ** Files, exceptions, output *)

Inductive File `{Backend} :=
  | Csv (df : list Row)                  (* cards.csv as pd.read_csv returns it *)
  | Picture (im : image)                 (* a file Image.open decodes *)
  | Npy (a : list string)                (* np.save of the id array *)
  | Json (m : dict Meta)                 (* json.dump of the metadata *)
  | FaissIndex (xb : list vec)           (* faiss.write_index of a flat index *)
  | Corrupt.                             (* anything no reader decodes: foreign,
                                            empty or cut short *)

Inductive Exception :=
  | FileNotFoundError (p : string)
  | DecodeError (p : string)             (* the reader's own error on a file it
                                            cannot decode *)
  | AssertionError (msg : string)
  | KeyError (k : string)
  | IndexError (i : Z).

Inductive Line `{Backend} :=
  | SkipMissing (p : string)             (* [skip] missing: ... *)
  | IndexSaved (n : nat) (p : string)    (* [index] saved n embeddings → ... *)
  | QueryImage (p : string)              (* [identify] query image: ... *)
  | TopResults                           (* [identify] top results: *)
  | ResultRow (cid nm : string) (sim : score) (st num : string).

(** The disk, every state the disk went through before (oldest first), and
    what was printed.  A crash leaves the disk in one of those states. *)
Record World `{Backend} := {
  disk : gmap string File;
  past : list (gmap string File);
  stdout : list Line
}.

Definition boot `{Backend} (fs : gmap string File) : World :=
  {| disk := fs; past := []; stdout := [] |}.

Definition disk_states `{Backend} (w : World) : list (gmap string File) :=
  past w ++ [disk w].

(** ** Statements: a world in, a world and a value or an exception out *)

Definition Py `{Backend} (A : Type) : Type := World → World * (Exception + A).

Definition ret `{Backend} {A} (a : A) : Py A := λ w, (w, inr a).
Definition raise `{Backend} {A} (e : Exception) : Py A := λ w, (w, inl e).
Definition bind `{Backend} {A B} (c : Py A) (k : A → Py B) : Py B :=
  λ w, match c w with
       | (w', inr a) => k a w'
       | (w', inl e) => (w', inl e)
       end.

Notation "'do' x <- c ; k" := (bind c (λ x, k))
  (at level 10, x pattern, c at level 100, k at level 200).
Notation "c ;; k" := (bind c (λ _, k))
  (at level 100, k at level 200, right associativity).

(** A value or an exception computed without touching the world. *)
Definition lift `{Backend} {A} (r : Exception + A) : Py A := λ w, (w, r).

Definition print `{Backend} (l : Line) : Py unit :=
  λ w, ({| disk := disk w; past := past w; stdout := stdout w ++ [l] |}, inr tt).

Definition assert `{Backend} (b : bool) (msg : string) : Py unit :=
  if b then ret tt else raise (AssertionError msg).

(** [Path.exists] *)
Definition path_exists `{Backend} (p : string) : Py bool :=
  λ w, (w, inr (bool_decide (is_Some (disk w !! p)))).

(** Opening a file for writing empties it at once; the content is on disk
    when the writer is done.  In between the file is cut short. *)
Definition write_file `{Backend} (p : string) (f : File) : Py unit :=
  λ w, ({| disk := <[p := f]> (disk w);
           past := past w ++ [disk w; <[p := Corrupt]> (disk w)];
           stdout := stdout w |}, inr tt).

Definition read_with `{Backend} {A} (p : string) (dec : File → option A) : Py A :=
  λ w, match disk w !! p with
       | None => (w, inl (FileNotFoundError p))
       | Some f => match dec f with
                   | Some a => (w, inr a)
                   | None => (w, inl (DecodeError p))
                   end
       end.

Definition pd_read_csv `{Backend} : Py (list Row) :=
  read_with CSV_PATH (λ f, match f with Csv df => Some df | _ => None end).
Definition Image_open `{Backend} (p : string) : Py image :=
  read_with p (λ f, match f with Picture im => Some im | _ => None end).
Definition np_load `{Backend} (p : string) : Py (list string) :=
  read_with p (λ f, match f with Npy a => Some a | _ => None end).
Definition json_load `{Backend} (p : string) : Py (dict Meta) :=
  read_with p (λ f, match f with Json m => Some m | _ => None end).
Definition faiss_read_index `{Backend} (p : string) : Py (list vec) :=
  read_with p (λ f, match f with FaissIndex xb => Some xb | _ => None end).

(** ** build_index_inline (lines 106-155) *)

(** The loop of lines 119-141, with [ids], [vecs] and [meta] as they stand. *)
Fixpoint embed_rows `{Backend} (rows : list Row)
    (ids : list string) (vecs : list vec) (meta : dict Meta)
    : Py (list string * list vec * dict Meta) :=
  match rows with
  | [] => ret (ids, vecs, meta)
  | row :: rest =>
      let cid := row_id row in
      let img_path := row_image_path row in
      do there <- path_exists img_path;
      if negb there then
        print (SkipMissing img_path);;
        embed_rows rest ids vecs meta
      else
        do img <- Image_open img_path;
        let v := embed img in
        embed_rows rest (ids ++ [cid]) (vecs ++ [v])
                   (dict_set cid (meta_of_row row) meta)
  end.

Definition build_index_inline `{Backend} : Py unit :=
  do df <- pd_read_csv;
  assert (negb ((length df =? 0)%nat)) "No rows in cards.csv — run sync first.";;
  do (ids, vecs, meta) <- embed_rows df [] [] [];
  assert (negb ((length vecs =? 0)%nat)) "No vectors built — check image paths in cards.csv.";;
  write_file IDS_NPY (Npy ids);;
  write_file META_JSON (Json meta);;
  write_file FAISS_PATH (FaissIndex vecs);;
  print (IndexSaved (length ids) FAISS_PATH).

(** ** The flat inner-product index of faiss

    [faiss.IndexFlatIP] is library code, not part of the repository.  What
    follows is its documented behaviour for one query row: the inner product
    with every stored vector, the [k] best by decreasing score, and output
    arrays of exactly [k] slots, the slots without a result holding label
    [-1] and the lowest score.  In which order the library lists equal
    scores is its own affair; nothing below relies on it. *)

Definition scored `{Backend} (xb : list vec) (q : vec) : list (score * Z) :=
  imap (λ i y, (inner_product q y, Z.of_nat i)) xb.

Fixpoint rank_insert `{Backend} (e : score * Z) (l : list (score * Z))
    : list (score * Z) :=
  match l with
  | [] => [e]
  | h :: t => if score_ltb h.1 e.1 then e :: h :: t else h :: rank_insert e t
  end.

Definition ranked `{Backend} (xb : list vec) (q : vec) : list (score * Z) :=
  foldl (λ acc e, rank_insert e acc) [] (scored xb q).

(** [D[0]] and [I[0]] of [index.search(qvec, k)], zipped.  The library
    rejects a [k] that is not positive. *)
Definition IndexFlatIP_search `{Backend} (xb : list vec) (q : vec) (k : nat)
    : Exception + list (score * Z) :=
  if (k =? 0)%nat then inl (AssertionError "k > 0")
  else
    let hits := take k (ranked xb q) in
    inr (hits ++ replicate (k - length hits) (lowest, (-1)%Z)).

(** ** identify_first_image_inline (lines 157-191) *)

(** [ids[idx]] on a numpy array: a negative index counts from the end. *)
Definition np_getitem (a : list string) (idx : Z) : Exception + string :=
  let n := Z.of_nat (length a) in
  let i := if (idx <? 0)%Z then (n + idx)%Z else idx in
  if ((0 <=? i)%Z && (i <? n)%Z)%bool then
    match a !! Z.to_nat i with
    | Some x => inr x
    | None => inl (IndexError idx)
    end
  else inl (IndexError idx).

(** [meta[cid]] *)
Definition dict_getitem {V} (d : dict V) (k : string) : Exception + V :=
  match dict_get k d with
  | Some v => inr v
  | None => inl (KeyError k)
  end.

(** The loop of lines 188-191. *)
Fixpoint print_results `{Backend} (ids : list string) (meta : dict Meta)
    (res : list (score * Z)) : Py unit :=
  match res with
  | [] => ret tt
  | (d, idx) :: rest =>
      do cid <- lift (np_getitem ids idx);
      do m <- lift (dict_getitem meta cid);
      print (ResultRow cid (name m) d (set_ m) (number m));;
      print_results ids meta rest
  end.

(** Lines 168-171: the three artifacts, read one after the other. *)
Definition load_index `{Backend} : Py (list vec * list string * dict Meta) :=
  do index <- faiss_read_index FAISS_PATH;
  do ids <- np_load IDS_NPY;
  do meta <- json_load META_JSON;
  ret (index, ids, meta).

Definition identify_first_image_inline `{Backend} (topk : nat) : Py unit :=
  do df <- pd_read_csv;
  assert (negb (length df =? 0)%nat) "";;
  match df with
  | [] => ret tt
  | row0 :: _ =>
      let img_path := row_image_path row0 in
      print (QueryImage img_path);;
      do (index, ids, meta) <- load_index;
      do qimg <- Image_open img_path;
      let qvec := embed qimg in
      do res <- lift (IndexFlatIP_search index qvec topk);
      print TopResults;;
      print_results ids meta res
  end.

(** ** What a run amounts to

    Closed forms of the loop and of the save, for the statements below. *)

(** The three files a build writes. *)
Definition artifact_paths : list string := [IDS_NPY; META_JSON; FAISS_PATH].

(** [emit ls w]: the world after printing [ls]. *)
Definition emit `{Backend} (ls : list Line) (w : World) : World :=
  {| disk := disk w; past := past w; stdout := stdout w ++ ls |}.

(** A row is readable when its picture is absent or decodes. *)
Definition readable `{Backend} (fs : gmap string File) (row : Row) : Prop :=
  fs !! row_image_path row = None
  ∨ ∃ im, fs !! row_image_path row = Some (Picture im).

(** A row is unreadable when its path holds something that is no picture. *)
Definition unreadable `{Backend} (fs : gmap string File) (row : Row) : Prop :=
  ∃ f, fs !! row_image_path row = Some f ∧ ∀ im, f ≠ Picture im.

(** The rows that get an embedding, each with its decoded picture. *)
Definition usable `{Backend} (fs : gmap string File) (rows : list Row)
    : list (Row * image) :=
  omap (λ row, match fs !! row_image_path row with
               | Some (Picture im) => Some (row, im)
               | _ => None
               end) rows.

(** The [[skip] missing] lines of the rows whose picture is absent. *)
Definition skip_lines `{Backend} (fs : gmap string File) (rows : list Row)
    : list Line :=
  omap (λ row, match fs !! row_image_path row with
               | None => Some (SkipMissing (row_image_path row))
               | Some _ => None
               end) rows.

Definition meta_after `{Backend} (meta : dict Meta) (us : list (Row * image))
    : dict Meta :=
  foldl (λ m u, dict_set (row_id u.1) (meta_of_row u.1) m) meta us.

(** The world after lines 151-155 have run: three files written in place,
    one after the other, then the closing line. *)
Definition saved `{Backend} (ids : list string) (vecs : list vec)
    (meta : dict Meta) (w : World) : World :=
  let fs0 := disk w in
  let fs1 := <[IDS_NPY := Npy ids]> fs0 in
  let fs2 := <[META_JSON := Json meta]> fs1 in
  let fs3 := <[FAISS_PATH := FaissIndex vecs]> fs2 in
  {| disk := fs3;
     past := past w ++ [fs0; <[IDS_NPY := Corrupt]> fs0;
                        fs1; <[META_JSON := Corrupt]> fs1;
                        fs2; <[FAISS_PATH := Corrupt]> fs2];
     stdout := stdout w ++ [IndexSaved (length ids) FAISS_PATH] |}.

Definition built_ids `{Backend} (fs : gmap string File) (df : list Row)
    : list string := (λ u, row_id u.1) <$> usable fs df.
Definition built_vecs `{Backend} (fs : gmap string File) (df : list Row)
    : list vec := (λ u, embed u.2) <$> usable fs df.
Definition built_meta `{Backend} (fs : gmap string File) (df : list Row)
    : dict Meta := meta_after [] (usable fs df).

(** The last row carrying [cid] among the rows that got an embedding. *)
Definition last_with_id `{Backend} (cid : string) (us : list (Row * image))
    : option Row :=
  last (filter (λ r, row_id r = cid) us.*1).

(** The line the results loop prints for one search entry, when the label
    resolves to an id and the id to its metadata (lines 189-191). *)
Definition result_line `{Backend} (ids : list string) (meta : dict Meta)
    (e : score * Z) : option Line :=
  match np_getitem ids e.2 with
  | inr cid =>
      match dict_get cid meta with
      | Some m => Some (ResultRow cid (name m) e.1 (set_ m) (number m))
      | None => None
      end
  | inl _ => None
  end.

(** A statement is quiet when all it does to the world is print. *)
Definition quiet `{Backend} {A} (c : Py A) : Prop :=
  ∀ w, ∃ ls, (c w).1 = emit ls w.

(** ** A small catalogue to run the program on

    Integer rows stand in for float32 rows; the statements above hold for any
    back end, the runs below fix one. *)

Definition int_backend : Backend :=
  {| image := list Z;
     vec := list Z;
     score := Z;
     encode_image := λ im, im;
     l2_normalize := λ z, z;
     inner_product := λ a b, foldr Z.add 0%Z (zip_with Z.mul a b);
     score_ltb := Z.ltb;
     lowest := (-1000)%Z |}.

Definition oddish : Row :=
  {| row_id := "sv3-1"; row_name := "Oddish"; row_set := "sv3";
     row_number := "1"; row_hp := "50";
     row_image_path := "data/catalog/images/sv3/1.jpg" |}.
Definition gloom : Row :=
  {| row_id := "sv3-2"; row_name := "Gloom"; row_set := "sv3";
     row_number := "2"; row_hp := "70";
     row_image_path := "data/catalog/images/sv3/2.jpg" |}.
(** A second row under the id of [oddish]. *)
Definition oddish_again : Row :=
  {| row_id := "sv3-1"; row_name := "Oddish (alt)"; row_set := "sv3";
     row_number := "1a"; row_hp := "";
     row_image_path := "data/catalog/images/sv3/1a.jpg" |}.
(** A row whose picture was never downloaded. *)
Definition vileplume : Row :=
  {| row_id := "sv3-3"; row_name := "Vileplume"; row_set := "sv3";
     row_number := "3"; row_hp := "140";
     row_image_path := "data/catalog/images/sv3/3.jpg" |}.

Section example_disks.
#[local] Existing Instance int_backend.

Definition pictures : gmap string File :=
  <["data/catalog/images/sv3/1.jpg" := Picture [1; 0]%Z]>
  (<["data/catalog/images/sv3/2.jpg" := Picture [0; 1]%Z]>
  (<["data/catalog/images/sv3/1a.jpg" := Picture [1; 1]%Z]> ∅)).

(** Two cards, a third without its picture. *)
Definition fs_two : gmap string File :=
  <[CSV_PATH := Csv [oddish; vileplume; gloom]]> pictures.

(** The same id on two rows. *)
Definition fs_dup : gmap string File :=
  <[CSV_PATH := Csv [oddish; oddish_again]]> pictures.

(** The second picture is on disk, cut short. *)
Definition fs_torn : gmap string File :=
  <[CSV_PATH := Csv [oddish; gloom]]>
  (<["data/catalog/images/sv3/2.jpg" := Corrupt]> pictures).

(** No row has a picture. *)
Definition fs_bare : gmap string File :=
  <[CSV_PATH := Csv [vileplume]]> pictures.

Definition old_meta : dict Meta := [("base1-1", meta_of_row vileplume)].

(** A catalogue with the artifacts of an earlier build next to it. *)
Definition fs_prior : gmap string File :=
  <[META_JSON := Json old_meta]>
  (<[IDS_NPY := Npy ["base1-1"]]>
  (<[FAISS_PATH := FaissIndex [[1; 1]%Z]]> fs_two)).

(** The artifacts of [fs_two], the entry of [gloom] taken out of the
    metadata by hand. *)
Definition fs_gap : gmap string File :=
  <[META_JSON := Json [("sv3-1", meta_of_row oddish)]]>
  (<[IDS_NPY := Npy ["sv3-1"; "sv3-2"]]>
  (<[FAISS_PATH := FaissIndex [[1; 0]%Z; [0; 1]%Z]]> fs_two)).

(** Two stored vectors, as a build of [fs_two] leaves them. *)
Definition fs_built : gmap string File :=
  <[META_JSON := Json [("sv3-1", meta_of_row oddish);
                       ("sv3-2", meta_of_row gloom)]]>
  (<[IDS_NPY := Npy ["sv3-1"; "sv3-2"]]>
  (<[FAISS_PATH := FaissIndex [[1; 0]%Z; [0; 1]%Z]]> fs_two)).

Definition two_meta : dict Meta :=
  [("sv3-1", meta_of_row oddish); ("sv3-2", meta_of_row gloom)].

End example_disks.

(** * Properties *)

(** ** Paths *)

Lemma artifact_paths_distinct : NoDup [CSV_PATH; IDS_NPY; META_JSON; FAISS_PATH].
Proof. apply (bool_decide_unpack _). by vm_compute. Qed.

(** ** Dictionaries *)

Section dict_facts.
Context {V : Type}.
Implicit Types (d : dict V) (k : string) (v : V).

Lemma dict_get_set_eq k v d : dict_get k (dict_set k v d) = Some v.
Proof.
  induction d as [|[k' v'] d IH]; simpl.
  - by rewrite String.eqb_refl.
  - destruct (String.eqb k k') eqn:E; simpl; rewrite ?String.eqb_refl, ?E; done.
Qed.

Lemma dict_get_set_ne k k' v d :
  k ≠ k' → dict_get k' (dict_set k v d) = dict_get k' d.
Proof.
  intros Hne. induction d as [|[k0 v0] d IH]; simpl.
  - destruct (String.eqb_spec k' k); congruence.
  - destruct (String.eqb_spec k k0) as [->|]; simpl.
    + destruct (String.eqb_spec k' k0); congruence.
    + destruct (String.eqb_spec k' k0); congruence.
Qed.

Lemma dict_get_is_Some k d : is_Some (dict_get k d) ↔ k ∈ dict_keys d.
Proof.
  unfold dict_keys. induction d as [|[k' v'] d IH].
  - split; [intros [? ?]; done | intros ?%elem_of_nil; done].
  - cbn [dict_get fmap list_fmap fst]. rewrite elem_of_cons.
    destruct (String.eqb_spec k k') as [->|Hne].
    + split; eauto.
    + rewrite IH. naive_solver.
Qed.

Lemma dict_keys_set k v d :
  dict_keys (dict_set k v d)
  = if bool_decide (k ∈ dict_keys d) then dict_keys d else dict_keys d ++ [k].
Proof.
  unfold dict_keys. induction d as [|[k' v'] d IH].
  - rewrite bool_decide_eq_false_2; [done | apply not_elem_of_nil].
  - cbn [dict_set]. destruct (String.eqb_spec k k') as [->|Hne].
    + rewrite bool_decide_eq_true_2; [done | left].
    + rewrite !fmap_cons, IH. cbn [fst].
      destruct (decide (k ∈ d.*1)) as [Hin|Hin].
      * rewrite !bool_decide_eq_true_2; [done | by right | done].
      * rewrite !bool_decide_eq_false_2; [done | | done].
        rewrite elem_of_cons. naive_solver.
Qed.

Lemma dict_keys_set_NoDup k v d :
  NoDup (dict_keys d) → NoDup (dict_keys (dict_set k v d)).
Proof.
  intros Hnd. rewrite dict_keys_set. case_bool_decide; [done |].
  apply NoDup_app. split_and!; [done | | apply NoDup_singleton].
  intros x Hx ->%list_elem_of_singleton. done.
Qed.

Lemma dict_keys_set_elem k k' v d :
  k' ∈ dict_keys (dict_set k v d) ↔ k' = k ∨ k' ∈ dict_keys d.
Proof.
  rewrite dict_keys_set. case_bool_decide.
  - naive_solver.
  - rewrite elem_of_app, list_elem_of_singleton. naive_solver.
Qed.
End dict_facts.

(** ** The loop over the catalogue *)

Section loop_facts.
Context `{Backend}.
Implicit Types (w : World) (rows : list Row) (ids : list string)
  (vecs : list vec) (meta : dict Meta).

Lemma emit_nil w : emit [] w = w.
Proof. destruct w; unfold emit; simpl. by rewrite app_nil_r. Qed.

Lemma emit_emit l1 l2 w : emit l2 (emit l1 w) = emit (l1 ++ l2) w.
Proof. unfold emit; simpl. by rewrite app_assoc. Qed.

Lemma embed_rows_nil ids vecs meta w :
  embed_rows [] ids vecs meta w = (w, inr (ids, vecs, meta)).
Proof. done. Qed.

Lemma embed_rows_missing row rest ids vecs meta w :
  disk w !! row_image_path row = None →
  embed_rows (row :: rest) ids vecs meta w
  = embed_rows rest ids vecs meta (emit [SkipMissing (row_image_path row)] w).
Proof.
  intros Hp. cbn [embed_rows]. unfold bind at 1, path_exists.
  rewrite Hp. rewrite bool_decide_eq_false_2 by (intros [? ?]; done).
  done.
Qed.

Lemma embed_rows_picture row rest ids vecs meta w im :
  disk w !! row_image_path row = Some (Picture im) →
  embed_rows (row :: rest) ids vecs meta w
  = embed_rows rest (ids ++ [row_id row]) (vecs ++ [embed im])
      (dict_set (row_id row) (meta_of_row row) meta) w.
Proof.
  intros Hp. cbn [embed_rows]. unfold bind at 1, path_exists.
  rewrite Hp. rewrite bool_decide_eq_true_2 by eauto. cbn [negb].
  unfold bind at 1, Image_open, read_with. by rewrite Hp.
Qed.

Lemma embed_rows_unreadable row rest ids vecs meta w :
  unreadable (disk w) row →
  embed_rows (row :: rest) ids vecs meta w
  = (w, inl (DecodeError (row_image_path row))).
Proof.
  intros (f & Hp & Hf). cbn [embed_rows]. unfold bind at 1, path_exists.
  rewrite Hp. rewrite bool_decide_eq_true_2 by eauto. cbn [negb].
  unfold bind at 1, Image_open, read_with. rewrite Hp.
  destruct f; try done. by destruct (Hf im).
Qed.

Lemma readable_or_unreadable (fs : gmap string File) row :
  readable fs row ∨ unreadable fs row.
Proof.
  unfold readable, unreadable.
  destruct (fs !! row_image_path row) as [f|] eqn:E; [|by left; left].
  destruct f as [| im | | | |];
    [right | left; right; by eexists | right..];
    (eexists; split; [done | intros; discriminate]).
Qed.

Lemma readable_not_unreadable (fs : gmap string File) row :
  readable fs row → unreadable fs row → False.
Proof.
  intros [Hn|[im Him]] (f & Hf & Hno); [congruence|].
  rewrite Him in Hf. injection Hf as <-. by eapply Hno.
Qed.

(** Every catalogue is readable throughout, or has a first unreadable row. *)
Lemma first_unreadable (fs : gmap string File) rows :
  Forall (readable fs) rows
  ∨ ∃ l1 r l2, rows = l1 ++ r :: l2 ∧ Forall (readable fs) l1 ∧ unreadable fs r.
Proof.
  induction rows as [|row rows IH]; [by left|].
  destruct (readable_or_unreadable fs row) as [Hr|Hu].
  - destruct IH as [IH|(l1 & r & l2 & -> & Hl1 & Hu)].
    + left. by constructor.
    + right. exists (row :: l1), r, l2. split_and!; [done | by constructor | done].
  - right. exists [], row, rows. split_and!; [done | constructor | done].
Qed.

(** The loop on a readable catalogue: one embedding per picture, one line
    per absent picture, in catalogue order. *)
Lemma embed_rows_readable rows ids vecs meta w :
  Forall (readable (disk w)) rows →
  embed_rows rows ids vecs meta w
  = (emit (skip_lines (disk w) rows) w,
     inr (ids ++ ((λ u, row_id u.1) <$> usable (disk w) rows),
          vecs ++ ((λ u, embed u.2) <$> usable (disk w) rows),
          meta_after meta (usable (disk w) rows))).
Proof.
  revert ids vecs meta w.
  induction rows as [|row rows IH]; intros ids vecs meta w Hall.
  - rewrite embed_rows_nil. unfold skip_lines, usable; simpl.
    by rewrite emit_nil, !app_nil_r.
  - apply Forall_cons in Hall as [[Hn|[im Him]] Hall].
    + rewrite embed_rows_missing by done.
      rewrite IH by done. cbn [emit disk].
      unfold skip_lines, usable. cbn [omap list_omap]. rewrite Hn.
      by rewrite emit_emit.
    + rewrite (embed_rows_picture _ _ _ _ _ _ im) by done.
      rewrite IH by done.
      unfold skip_lines, usable. cbn [omap list_omap]. rewrite Him.
      cbn [fmap list_fmap fst snd meta_after foldl].
      by rewrite <- !app_assoc.
Qed.

(** The loop stops at the first unreadable row. *)
Lemma embed_rows_abort l1 r l2 ids vecs meta w :
  Forall (readable (disk w)) l1 → unreadable (disk w) r →
  embed_rows (l1 ++ r :: l2) ids vecs meta w
  = (emit (skip_lines (disk w) l1) w, inl (DecodeError (row_image_path r))).
Proof.
  revert ids vecs meta w.
  induction l1 as [|row l1 IH]; intros ids vecs meta w Hall Hu.
  - rewrite app_nil_l, embed_rows_unreadable by done.
    unfold skip_lines; simpl. by rewrite emit_nil.
  - apply Forall_cons in Hall as [[Hn|[im Him]] Hall]; rewrite <- app_comm_cons.
    + rewrite embed_rows_missing by done.
      rewrite IH by done. cbn [emit disk].
      unfold skip_lines. cbn [omap list_omap]. rewrite Hn.
      by rewrite emit_emit.
    + rewrite (embed_rows_picture _ _ _ _ _ _ im) by done.
      rewrite IH by done.
      unfold skip_lines. cbn [omap list_omap]. by rewrite Him.
Qed.

(** A loop that ran to its end met readable rows only. *)
Lemma embed_rows_inr rows ids vecs meta w w' res :
  embed_rows rows ids vecs meta w = (w', inr res) →
  Forall (readable (disk w)) rows.
Proof.
  intros Hrun.
  destruct (first_unreadable (disk w) rows)
    as [Hall|(l1 & r & l2 & -> & Hl1 & Hu)]; [done|].
  rewrite embed_rows_abort in Hrun by done. congruence.
Qed.

End loop_facts.

(** ** The build as a whole *)

Section build_facts.
Context `{Backend}.
Implicit Types (w : World) (df : list Row).

Lemma pd_read_csv_ok w df :
  disk w !! CSV_PATH = Some (Csv df) → pd_read_csv w = (w, inr df).
Proof. intros E. unfold pd_read_csv, read_with. by rewrite E. Qed.

Lemma pd_read_csv_inr w w' df :
  pd_read_csv w = (w', inr df) → w' = w ∧ disk w !! CSV_PATH = Some (Csv df).
Proof.
  unfold pd_read_csv, read_with.
  destruct (disk w !! CSV_PATH) as [[]|]; intros [= <- <-] || intros [=]; done.
Qed.

Lemma usable_nil_of_nil (fs : gmap string File) : usable fs [] = [].
Proof. done. Qed.

(** No usable row: the build stops at one of its two assertions. *)
Lemma build_empty w df :
  disk w !! CSV_PATH = Some (Csv df) →
  Forall (readable (disk w)) df →
  usable (disk w) df = [] →
  ∃ msg, build_index_inline w
         = (emit (skip_lines (disk w) df) w, inl (AssertionError msg)).
Proof.
  intros Hcsv Hall Hno. unfold build_index_inline.
  unfold bind at 1. rewrite (pd_read_csv_ok _ df) by done.
  destruct df as [|row df].
  - eexists. unfold bind at 1; cbn. by rewrite emit_nil.
  - unfold bind at 1. cbn [length Nat.eqb negb assert ret].
    unfold bind at 1. rewrite embed_rows_readable by done.
    rewrite Hno. cbn [fmap list_fmap app length Nat.eqb negb assert].
    eexists. by unfold bind at 1.
Qed.

(** Some usable row: the build saves and succeeds. *)
Lemma build_saved w df :
  disk w !! CSV_PATH = Some (Csv df) →
  Forall (readable (disk w)) df →
  usable (disk w) df ≠ [] →
  build_index_inline w
  = (saved (built_ids (disk w) df) (built_vecs (disk w) df)
       (built_meta (disk w) df) (emit (skip_lines (disk w) df) w), inr tt).
Proof.
  intros Hcsv Hall Hsome. unfold build_index_inline.
  unfold bind at 1. rewrite (pd_read_csv_ok _ df) by done.
  destruct df as [|row df]; [done|].
  unfold bind at 1. cbn [length Nat.eqb negb assert ret].
  unfold bind at 1. rewrite embed_rows_readable by done.
  rewrite !app_nil_l.
  destruct (usable (disk w) (row :: df)) as [|u us] eqn:E; [done|].
  unfold bind at 1. cbn [fmap list_fmap length Nat.eqb negb assert ret].
  unfold built_ids, built_vecs, built_meta. rewrite E.
  unfold bind, write_file, print, saved, emit. cbn.
  by rewrite <- !app_assoc.
Qed.

(** An unreadable row aborts the build where it stands. *)
Lemma build_abort w l1 r l2 :
  disk w !! CSV_PATH = Some (Csv (l1 ++ r :: l2)) →
  Forall (readable (disk w)) l1 →
  unreadable (disk w) r →
  build_index_inline w
  = (emit (skip_lines (disk w) l1) w, inl (DecodeError (row_image_path r))).
Proof.
  intros Hcsv Hall Hu. unfold build_index_inline.
  unfold bind at 1. rewrite (pd_read_csv_ok _ (l1 ++ r :: l2)) by done.
  unfold bind at 1.
  replace (negb (length (l1 ++ r :: l2) =? 0)%nat) with true
    by (by destruct l1).
  cbn [assert ret]. unfold bind at 1. by rewrite embed_rows_abort.
Qed.

(** What a successful build tells about the world it started from. *)
Lemma build_inr w w' :
  build_index_inline w = (w', inr tt) →
  ∃ df, disk w !! CSV_PATH = Some (Csv df)
        ∧ Forall (readable (disk w)) df
        ∧ usable (disk w) df ≠ []
        ∧ w' = saved (built_ids (disk w) df) (built_vecs (disk w) df)
                 (built_meta (disk w) df) (emit (skip_lines (disk w) df) w).
Proof.
  intros Hrun.
  destruct (disk w !! CSV_PATH) as [f|] eqn:Hcsv; cycle 1.
  { unfold build_index_inline, bind, pd_read_csv, read_with in Hrun.
    by rewrite Hcsv in Hrun. }
  destruct f as [df| | | | |];
    try (unfold build_index_inline, bind, pd_read_csv, read_with in Hrun;
         by rewrite Hcsv in Hrun).
  exists df. split; [done|].
  destruct (first_unreadable (disk w) df)
    as [Hall|(l1 & r & l2 & -> & Hl1 & Hu)].
  - destruct (usable (disk w) df) as [|u us] eqn:E.
    + destruct (build_empty w df) as [msg Hmsg]; try done. congruence.
    + assert (usable (disk w) df ≠ []) as Hne by (by rewrite E).
      rewrite (build_saved w df) in Hrun by done.
      rewrite <- E. split_and!; [done | done | congruence].
  - rewrite (build_abort w l1 r l2) in Hrun by done. congruence.
Qed.

End build_facts.

(** ** The metadata the loop leaves behind *)

Section meta_facts.
Context `{Backend}.
Implicit Types (us : list (Row * image)) (m : dict Meta) (cid : string).

Lemma meta_after_keys_NoDup m us :
  NoDup (dict_keys m) → NoDup (dict_keys (meta_after m us)).
Proof.
  revert m. induction us as [|u us IH]; intros m Hm; [done|].
  cbn [meta_after foldl]. apply IH. by apply dict_keys_set_NoDup.
Qed.

Lemma meta_after_keys_elem m us cid :
  cid ∈ dict_keys (meta_after m us)
  ↔ cid ∈ dict_keys m ∨ cid ∈ (λ u, row_id u.1) <$> us.
Proof.
  revert m. induction us as [|u us IH]; intros m.
  - cbn. rewrite elem_of_nil. tauto.
  - cbn [meta_after foldl]. fold (meta_after (dict_set (row_id u.1) (meta_of_row u.1) m) us).
    rewrite IH, dict_keys_set_elem, fmap_cons, elem_of_cons. tauto.
Qed.

(** Assignments to one key: the last one stays. *)
Lemma meta_after_get m us cid :
  dict_get cid (meta_after m us)
  = match last_with_id cid us with
    | Some r => Some (meta_of_row r)
    | None => dict_get cid m
    end.
Proof.
  unfold last_with_id. revert m. induction us as [|u us IH]; intros m; [done|].
  cbn [meta_after foldl]. fold (meta_after (dict_set (row_id u.1) (meta_of_row u.1) m) us).
  rewrite IH, fmap_cons, filter_cons.
  destruct (decide (row_id u.1 = cid)) as [<-|Hne].
  - rewrite last_cons.
    destruct (last (filter (λ r, row_id r = row_id u.1) us.*1)); [done|].
    apply dict_get_set_eq.
  - destruct (last (filter (λ r, row_id r = cid) us.*1)); [done|].
    by apply dict_get_set_ne.
Qed.

Lemma length_dict_keys m : length (dict_keys m) = length m.
Proof. unfold dict_keys. apply length_fmap. Qed.

(** The keys are the ids without their repetitions. *)
Lemma built_meta_keys (fs : gmap string File) df :
  NoDup (dict_keys (built_meta fs df))
  ∧ ∀ cid, cid ∈ dict_keys (built_meta fs df) ↔ cid ∈ built_ids fs df.
Proof.
  unfold built_meta, built_ids. split.
  - apply meta_after_keys_NoDup. constructor.
  - intros cid. rewrite meta_after_keys_elem. cbn. rewrite elem_of_nil. tauto.
Qed.

Lemma built_lengths (fs : gmap string File) df :
  length (built_ids fs df) = length (built_vecs fs df).
Proof. unfold built_ids, built_vecs. by rewrite !length_fmap. Qed.

Lemma built_meta_le (fs : gmap string File) df :
  length (built_meta fs df) ≤ length (built_ids fs df).
Proof.
  destruct (built_meta_keys fs df) as [Hnd Hel].
  rewrite <- length_dict_keys. apply submseteq_length, NoDup_submseteq; [done|].
  intros x. apply Hel.
Qed.

Lemma built_meta_eq_iff (fs : gmap string File) df :
  length (built_meta fs df) = length (built_ids fs df) ↔ NoDup (built_ids fs df).
Proof.
  destruct (built_meta_keys fs df) as [Hnd Hel].
  assert (dict_keys (built_meta fs df) ⊆+ built_ids fs df) as Hsub.
  { apply NoDup_submseteq; [done|]. intros x. apply Hel. }
  rewrite <- length_dict_keys. split.
  - intros Hlen. eapply NoDup_Permutation_proper; [|exact Hnd].
    symmetry. apply submseteq_length_Permutation; [done|]. by rewrite Hlen.
  - intros Hids. apply Nat.le_antisymm; [by apply submseteq_length|].
    apply submseteq_length, NoDup_submseteq; [done|]. intros x. apply Hel.
Qed.

Lemma usable_app (fs : gmap string File) l1 l2 :
  usable fs (l1 ++ l2) = usable fs l1 ++ usable fs l2.
Proof. unfold usable. apply omap_app. Qed.

Lemma usable_cons_picture (fs : gmap string File) row rows im :
  fs !! row_image_path row = Some (Picture im) →
  usable fs (row :: rows) = (row, im) :: usable fs rows.
Proof. intros E. unfold usable. cbn [omap list_omap]. by rewrite E. Qed.

End meta_facts.

(** ** Where the artifacts land *)

Section saved_facts.
Context `{Backend}.

Lemma paths_ne :
  IDS_NPY ≠ META_JSON ∧ IDS_NPY ≠ FAISS_PATH ∧ META_JSON ≠ FAISS_PATH
  ∧ CSV_PATH ≠ IDS_NPY ∧ CSV_PATH ≠ META_JSON ∧ CSV_PATH ≠ FAISS_PATH.
Proof. split_and!; by vm_compute. Qed.

Lemma saved_lookup ids vecs meta (w : World) :
  disk (saved ids vecs meta w) !! IDS_NPY = Some (Npy ids)
  ∧ disk (saved ids vecs meta w) !! META_JSON = Some (Json meta)
  ∧ disk (saved ids vecs meta w) !! FAISS_PATH = Some (FaissIndex vecs).
Proof.
  destruct paths_ne as (? & ? & ? & _). cbn [saved disk].
  split_and!.
  - rewrite !lookup_insert_ne by done. apply lookup_insert_eq.
  - rewrite lookup_insert_ne by done. apply lookup_insert_eq.
  - apply lookup_insert_eq.
Qed.

Lemma saved_lookup_other ids vecs meta (w : World) p :
  p ∉ artifact_paths → disk (saved ids vecs meta w) !! p = disk w !! p.
Proof.
  unfold artifact_paths. rewrite !not_elem_of_cons. intros (? & ? & ? & _).
  cbn [saved disk]. by rewrite !lookup_insert_ne.
Qed.

End saved_facts.

(** ** Counts in the persisted artifacts *)

(** C4, as amended: after every successful build the id sequence is as long
    as the vector matrix, every id of the sequence has its metadata record,
    and the metadata holds one entry per distinct id: never more entries than
    ids, and as many exactly when no id repeats. *)
Theorem build_artifacts_consistent `{Backend} (w w' : World) :
  build_index_inline w = (w', inr tt) →
  ∃ ids vecs meta,
    disk w' !! IDS_NPY = Some (Npy ids)
    ∧ disk w' !! META_JSON = Some (Json meta)
    ∧ disk w' !! FAISS_PATH = Some (FaissIndex vecs)
    ∧ length ids = length vecs
    ∧ (∀ cid, cid ∈ ids → is_Some (dict_get cid meta))
    ∧ NoDup (dict_keys meta)
    ∧ (∀ cid, cid ∈ dict_keys meta → cid ∈ ids)
    ∧ length meta ≤ length ids
    ∧ (length meta = length ids ↔ NoDup ids).
Proof.
  intros (df & Hcsv & Hall & Hsome & ->)%build_inr.
  exists (built_ids (disk w) df), (built_vecs (disk w) df),
         (built_meta (disk w) df).
  destruct (saved_lookup (built_ids (disk w) df) (built_vecs (disk w) df)
              (built_meta (disk w) df) (emit (skip_lines (disk w) df) w))
    as (Hi & Hm & Hf).
  destruct (built_meta_keys (disk w) df) as [Hnd Hel].
  split_and!; try done.
  - apply built_lengths.
  - intros cid Hin. apply dict_get_is_Some, Hel, Hin.
  - intros cid. apply Hel.
  - apply built_meta_le.
  - apply built_meta_eq_iff.
Qed.


(** ** Missing pictures, unreadable pictures, empty catalogues *)

Section skip_facts.
Context `{Backend}.

Lemma skip_lines_elem (fs : gmap string File) rows row :
  row ∈ rows → fs !! row_image_path row = None →
  SkipMissing (row_image_path row) ∈ skip_lines fs rows.
Proof.
  intros Hin Hn. unfold skip_lines. apply list_elem_of_omap.
  exists row. split; [done|]. by rewrite Hn.
Qed.

Lemma usable_elem (fs : gmap string File) rows row im :
  (row, im) ∈ usable fs rows →
  row ∈ rows ∧ fs !! row_image_path row = Some (Picture im).
Proof.
  unfold usable. intros (r & Hin & Hr)%list_elem_of_omap.
  destruct (fs !! row_image_path r) as [[]|] eqn:E; try done.
  injection Hr as -> ->. done.
Qed.

Lemma saved_stdout ids vecs meta (w : World) l :
  l ∈ stdout w → l ∈ stdout (saved ids vecs meta w).
Proof. intros Hl. cbn [saved stdout]. apply elem_of_app. by left. Qed.

End skip_facts.


(** ** Building twice *)

Section rebuild_facts.
Context `{Backend}.

Lemma saved_disk_again ids vecs meta (w w1 : World) :
  disk w1 = disk (saved ids vecs meta w) →
  disk (saved ids vecs meta w1) = disk w1.
Proof.
  intros E. cbn [saved disk] in *. rewrite E. apply map_eq. intros p.
  destruct (decide (p = FAISS_PATH)) as [->|];
    [by rewrite !lookup_insert_eq | rewrite (lookup_insert_ne _ FAISS_PATH) by done].
  destruct (decide (p = META_JSON)) as [->|];
    [rewrite lookup_insert_eq, (lookup_insert_ne _ FAISS_PATH) by done;
       by rewrite lookup_insert_eq
    | rewrite (lookup_insert_ne _ META_JSON) by done].
  destruct (decide (p = IDS_NPY)) as [->|].
  - rewrite lookup_insert_eq. rewrite !lookup_insert_ne by done.
    by rewrite lookup_insert_eq.
  - by rewrite (lookup_insert_ne _ IDS_NPY) by done.
Qed.

(** A failed build leaves the disk as it found it. *)
Lemma build_inl_disk (w w' : World) e :
  build_index_inline w = (w', inl e) → disk w' = disk w.
Proof.
  intros Hrun.
  destruct (disk w !! CSV_PATH) as [f|] eqn:Hcsv; cycle 1.
  { unfold build_index_inline, bind, pd_read_csv, read_with in Hrun.
    rewrite Hcsv in Hrun. by injection Hrun as <- _. }
  destruct f as [df| | | | |];
    try (unfold build_index_inline, bind, pd_read_csv, read_with in Hrun;
         rewrite Hcsv in Hrun; by injection Hrun as <- _).
  destruct (first_unreadable (disk w) df)
    as [Hall|(l1 & r & l2 & -> & Hl1 & Hu)].
  - destruct (usable (disk w) df) as [|u us] eqn:E.
    + destruct (build_empty w df) as [msg Hmsg]; try done.
      rewrite Hmsg in Hrun. by injection Hrun as <- _.
    + rewrite (build_saved w df) in Hrun; [done..|by rewrite E].
  - rewrite (build_abort w l1 r l2) in Hrun by done. by injection Hrun as <- _.
Qed.

(** Once the artifacts are on disk, a picture path either still holds what
    it held, or it is one of the artifacts and no longer a picture. *)
Lemma saved_readable_same ids vecs meta (w : World) row :
  readable (disk (saved ids vecs meta w)) row →
  disk (saved ids vecs meta w) !! row_image_path row
  = disk w !! row_image_path row.
Proof.
  intros Hr.
  destruct (decide (row_image_path row ∈ artifact_paths)) as [Hin|Hout];
    [|by apply saved_lookup_other].
  destruct (saved_lookup ids vecs meta w) as (Hi & Hm & Hf).
  unfold artifact_paths in Hin. rewrite !elem_of_cons, elem_of_nil in Hin.
  destruct Hr as [Hn|[im Him]];
    destruct Hin as [E|[E|[E|[]]]]; rewrite E in *; congruence.
Qed.

Lemma usable_ext (fs1 fs2 : gmap string File) rows :
  Forall (λ row, fs1 !! row_image_path row = fs2 !! row_image_path row) rows →
  usable fs1 rows = usable fs2 rows ∧ skip_lines fs1 rows = skip_lines fs2 rows.
Proof.
  induction 1 as [|row rows E _ [IH1 IH2]]; [done|].
  unfold usable, skip_lines in *. cbn [omap list_omap].
  by rewrite E, IH1, IH2.
Qed.

End rebuild_facts.


(** ** Saving, state by state *)

(** C6, as amended: the three artifacts are written in place, one after the
    other, with no temporary file and no rename.  The states the disk passes
    through are exactly the seven below: the fourth has the metadata path cut
    short, whatever it held before; from the fifth on it holds the new
    mapping; no path other than the three artifacts is ever touched. *)
Theorem save_writes_in_place `{Backend} (w w' : World) :
  build_index_inline w = (w', inr tt) →
  ∃ ids vecs meta,
    let fs0 := disk w in
    let fs1 := <[IDS_NPY := Npy ids]> fs0 in
    let fs2 := <[META_JSON := Json meta]> fs1 in
    let fs3 := <[FAISS_PATH := FaissIndex vecs]> fs2 in
    let states := [fs0; <[IDS_NPY := Corrupt]> fs0;
                   fs1; <[META_JSON := Corrupt]> fs1;
                   fs2; <[FAISS_PATH := Corrupt]> fs2; fs3] in
    disk_states w' = past w ++ states
    ∧ (<[META_JSON := Corrupt]> fs1) !! META_JSON = Some Corrupt
    ∧ fs2 !! META_JSON = Some (Json meta)
    ∧ disk w' !! META_JSON = Some (Json meta)
    ∧ (∀ s p, s ∈ states → p ∉ artifact_paths → s !! p = fs0 !! p).
Proof.
  intros (df & Hcsv & Hall & Hsome & ->)%build_inr.
  exists (built_ids (disk w) df), (built_vecs (disk w) df),
         (built_meta (disk w) df).
  cbn zeta. split_and!.
  - unfold disk_states. cbn [saved emit past disk]. by rewrite <- app_assoc.
  - apply lookup_insert_eq.
  - apply lookup_insert_eq.
  - apply saved_lookup.
  - intros s p Hs Hp. unfold artifact_paths in Hp.
    rewrite !not_elem_of_cons in Hp. destruct Hp as (? & ? & ? & _).
    rewrite !elem_of_cons, elem_of_nil in Hs.
    destruct Hs as [->|[->|[->|[->|[->|[->|[->|[]]]]]]]];
      by rewrite ?lookup_insert_ne by done.
Qed.

(** ** Loading and resolving *)

Section load_facts.
Context `{Backend}.

Lemma read_with_inr {A} p (dec : File → option A) (w : World) a :
  (read_with p dec w).2 = inr a ↔ ∃ f, disk w !! p = Some f ∧ dec f = Some a.
Proof.
  unfold read_with. destruct (disk w !! p) as [f|]; cbn.
  - destruct (dec f) as [a'|] eqn:E; cbn.
    + split; [intros [= ->]; eauto | intros (f' & [= <-] & E'); congruence].
    + split; [done | intros (f' & [= <-] & E'); congruence].
  - split; [done | intros (f' & [=] & _)].
Qed.

Lemma read_with_world {A} p (dec : File → option A) (w : World) :
  (read_with p dec w).1 = w.
Proof.
  unfold read_with. destruct (disk w !! p) as [f|]; [|done].
  by destruct (dec f).
Qed.

Lemma load_index_inr (w : World) xb ids meta :
  (load_index w).2 = inr (xb, ids, meta)
  ↔ disk w !! FAISS_PATH = Some (FaissIndex xb)
    ∧ disk w !! IDS_NPY = Some (Npy ids)
    ∧ disk w !! META_JSON = Some (Json meta).
Proof.
  unfold load_index, faiss_read_index, np_load, json_load, bind, ret, read_with.
  destruct (disk w !! FAISS_PATH) as [[]|]; cbn;
    try (split; [done | by intros ([=] & _)]).
  destruct (disk w !! IDS_NPY) as [[]|]; cbn;
    try (split; [done | by intros (_ & [=] & _)]).
  destruct (disk w !! META_JSON) as [[]|]; cbn;
    try (split; [done | by intros (_ & _ & [=])]).
  split; [by intros [= -> -> ->] | by intros ([= ->] & [= ->] & [= ->])].
Qed.

Lemma print_results_cons ids meta d idx rest (w : World) :
  print_results ids meta ((d, idx) :: rest) w
  = match np_getitem ids idx with
    | inl e => (w, inl e)
    | inr cid =>
        match dict_getitem meta cid with
        | inl e => (w, inl e)
        | inr m => print_results ids meta rest
                     (emit [ResultRow cid (name m) d (set_ m) (number m)] w)
        end
    end.
Proof.
  cbn [print_results]. unfold bind, lift.
  destruct (np_getitem ids idx); [done|].
  by destruct (dict_getitem meta s).
Qed.

(** The results loop stops at the first label whose id has no metadata,
    after the rows before it were printed. *)
Lemma print_results_KeyError ids meta pre d idx post cid (w w1 : World) :
  print_results ids meta pre w = (w1, inr tt) →
  np_getitem ids idx = inr cid →
  dict_get cid meta = None →
  print_results ids meta (pre ++ (d, idx) :: post) w = (w1, inl (KeyError cid)).
Proof.
  intros Hpre Hget Hnone. revert w Hpre.
  induction pre as [|[d0 i0] pre IH]; intros w Hpre.
  - injection Hpre as <-. rewrite app_nil_l, print_results_cons, Hget.
    unfold dict_getitem. by rewrite Hnone.
  - rewrite <- app_comm_cons, print_results_cons.
    rewrite print_results_cons in Hpre.
    destruct (np_getitem ids i0); [done|].
    destruct (dict_getitem meta s); [done|]. by apply IH.
Qed.

End load_facts.

(** C7, as amended: loading succeeds exactly when each of the three
    artifacts is present and decodes; no count is compared.  A metadata
    artifact that lacks an id therefore loads, and the gap shows only when
    the results loop reaches that id: a [KeyError], after the rows ranked
    before it were printed. *)
Theorem load_checks_decoding_only `{Backend} (w : World) :
  (∀ xb ids meta,
     (load_index w).2 = inr (xb, ids, meta)
     ↔ disk w !! FAISS_PATH = Some (FaissIndex xb)
       ∧ disk w !! IDS_NPY = Some (Npy ids)
       ∧ disk w !! META_JSON = Some (Json meta))
  ∧ (∀ ids meta pre d idx post cid w1,
       print_results ids meta pre w = (w1, inr tt) →
       np_getitem ids idx = inr cid →
       dict_get cid meta = None →
       print_results ids meta (pre ++ (d, idx) :: post) w
       = (w1, inl (KeyError cid))).
Proof.
  split.
  - intros xb ids meta. apply load_index_inr.
  - intros ids meta pre d idx post cid w1. apply print_results_KeyError.
Qed.

(** ** What a search hands back *)

Section search_facts.
Context `{Backend}.

Lemma rank_insert_perm e (l : list (score * Z)) : rank_insert e l ≡ₚ e :: l.
Proof.
  induction l as [|h t IH]; [done|]. cbn [rank_insert].
  destruct (score_ltb h.1 e.1); [done|]. rewrite IH. apply perm_swap.
Qed.

Lemma foldl_rank_insert_perm (l acc : list (score * Z)) :
  foldl (λ a e, rank_insert e a) acc l ≡ₚ acc ++ l.
Proof.
  revert acc. induction l as [|e l IH]; intros acc; cbn [foldl].
  - by rewrite app_nil_r.
  - rewrite IH, rank_insert_perm. apply Permutation_middle.
Qed.

Lemma ranked_perm xb q : ranked xb q ≡ₚ scored xb q.
Proof. unfold ranked. by rewrite foldl_rank_insert_perm. Qed.

Lemma length_ranked xb q : length (ranked xb q) = length xb.
Proof. rewrite ranked_perm. unfold scored. apply length_imap. Qed.

Lemma ranked_elem xb q e :
  e ∈ ranked xb q →
  ∃ i y, xb !! i = Some y ∧ e = (inner_product q y, Z.of_nat i).
Proof.
  rewrite ranked_perm. unfold scored.
  intros (i & y & -> & Hy)%elem_of_lookup_imap. eauto.
Qed.

End search_facts.


(** ** The program run on the small catalogue *)

Section example_runs.
#[local] Existing Instance int_backend.



(** C4, as stated, fails: two rows share an id, the build succeeds, and the
    artifacts hold two ids and two vectors against one metadata entry. *)
Lemma duplicate_id_counts_counterexample :
  let w' := (build_index_inline (boot fs_dup)).1 in
  (build_index_inline (boot fs_dup)).2 = inr tt
  ∧ disk w' !! IDS_NPY = Some (Npy ["sv3-1"; "sv3-1"])
  ∧ disk w' !! FAISS_PATH = Some (FaissIndex [[1; 0]; [1; 1]]%Z)
  ∧ disk w' !! META_JSON = Some (Json [("sv3-1", meta_of_row oddish_again)])
  ∧ length ["sv3-1"; "sv3-1"] ≠ length [("sv3-1", meta_of_row oddish_again)].
Proof. by vm_compute. Qed.

Lemma build_artifacts_consistent_witness :
  let w' := (build_index_inline (boot fs_two)).1 in
  build_index_inline (boot fs_two) = (w', inr tt)
  ∧ ∃ ids vecs meta,
      disk w' !! IDS_NPY = Some (Npy ids)
      ∧ disk w' !! META_JSON = Some (Json meta)
      ∧ disk w' !! FAISS_PATH = Some (FaissIndex vecs)
      ∧ length ids = length vecs
      ∧ (∀ cid, cid ∈ ids → is_Some (dict_get cid meta))
      ∧ NoDup (dict_keys meta)
      ∧ (∀ cid, cid ∈ dict_keys meta → cid ∈ ids)
      ∧ length meta ≤ length ids
      ∧ (length meta = length ids ↔ NoDup ids).
Proof.
  cbv zeta. split; [by vm_compute|].
  apply (build_artifacts_consistent (boot fs_two)). by vm_compute.
Defined.


Lemma fs_two_readable : Forall (readable fs_two) [oddish; vileplume; gloom].
Proof.
  apply Forall_cons_2; [right; eexists; by vm_compute|].
  apply Forall_cons_2; [left; by vm_compute|].
  apply Forall_cons_2; [right; eexists; by vm_compute|].
  apply Forall_nil_2.
Defined.


(** C6, as stated, fails: the metadata of an earlier build is on disk; of
    the seven states the disk passes through while the new build saves, the
    fourth shows the metadata path cut short: neither the old mapping nor
    the new one. *)
Lemma save_crash_counterexample :
  (λ s : gmap string File, s !! META_JSON)
    <$> disk_states (build_index_inline (boot fs_prior)).1
  = [Some (Json old_meta); Some (Json old_meta); Some (Json old_meta);
     Some Corrupt;
     Some (Json two_meta); Some (Json two_meta); Some (Json two_meta)].
Proof. by vm_compute. Qed.

Lemma save_writes_in_place_witness :
  let w' := (build_index_inline (boot fs_prior)).1 in
  build_index_inline (boot fs_prior) = (w', inr tt)
  ∧ ∃ ids vecs meta,
      let fs0 := fs_prior in
      let fs1 := <[IDS_NPY := Npy ids]> fs0 in
      let fs2 := <[META_JSON := Json meta]> fs1 in
      let fs3 := <[FAISS_PATH := FaissIndex vecs]> fs2 in
      let states := [fs0; <[IDS_NPY := Corrupt]> fs0;
                     fs1; <[META_JSON := Corrupt]> fs1;
                     fs2; <[FAISS_PATH := Corrupt]> fs2; fs3] in
      disk_states w' = [] ++ states
      ∧ (<[META_JSON := Corrupt]> fs1) !! META_JSON = Some Corrupt
      ∧ fs2 !! META_JSON = Some (Json meta)
      ∧ disk w' !! META_JSON = Some (Json meta)
      ∧ (∀ s p, s ∈ states → p ∉ artifact_paths → s !! p = fs0 !! p).
Proof.
  cbv zeta. split; [by vm_compute|].
  apply (save_writes_in_place (boot fs_prior)). by vm_compute.
Defined.

(** C7, as stated, fails: the metadata lacks one of the two ids of the
    vector artifact, and loading succeeds all the same; asked for the best
    match only, identify even ends without an error. *)
Lemma removed_id_loads_counterexample :
  load_index (boot fs_gap)
  = (boot fs_gap,
     inr ([[1; 0]; [0; 1]]%Z, ["sv3-1"; "sv3-2"],
          [("sv3-1", meta_of_row oddish)]))
  ∧ identify_first_image_inline 1 (boot fs_gap)
    = (emit [QueryImage "data/catalog/images/sv3/1.jpg"; TopResults;
             ResultRow "sv3-1" "Oddish" 1%Z "sv3" "1"] (boot fs_gap),
       inr tt).
Proof. by vm_compute. Qed.

Lemma load_checks_decoding_only_witness :
  let ids := ["sv3-1"; "sv3-2"] in
  let meta := [("sv3-1", meta_of_row oddish)] in
  (load_index (boot fs_gap)).2 = inr ([[1; 0]; [0; 1]]%Z, ids, meta)
  ∧ print_results ids meta ([(1, 0)] ++ (0, 1) :: [])%Z (boot fs_gap)
    = (emit [ResultRow "sv3-1" "Oddish" 1%Z "sv3" "1"] (boot fs_gap),
       inl (KeyError "sv3-2")).
Proof.
  cbv zeta.
  destruct (load_checks_decoding_only (boot fs_gap)) as [Hload Hloop].
  split.
  - apply Hload. by vm_compute.
  - apply Hloop; by vm_compute.
Defined.



End example_runs.

(** * Further properties of the build and of identify *)

(** ** Indexing the id array *)

Lemma np_getitem_spec (a : list string) (idx : Z) :
  ((- Z.of_nat (length a) ≤ idx < Z.of_nat (length a))%Z →
   ∃ x, a !! Z.to_nat (idx `mod` Z.of_nat (length a)) = Some x
        ∧ np_getitem a idx = inr x)
  ∧ ((idx < - Z.of_nat (length a) ∨ Z.of_nat (length a) ≤ idx)%Z →
     np_getitem a idx = inl (IndexError idx)).
Proof.
  unfold np_getitem. set (n := Z.of_nat (length a)). split.
  - intros Hr.
    assert (Z.to_nat (idx `mod` n) < length a) as Hlt.
    { pose proof (Z.mod_pos_bound idx n). lia. }
    apply lookup_lt_is_Some in Hlt as [x Hx]. exists x. split; [done|].
    destruct (Z.ltb_spec idx 0).
    + replace (idx `mod` n)%Z with (n + idx)%Z in Hx
        by (apply Z.mod_unique with (-1)%Z; lia).
      rewrite andb_true_intro by (split; [apply Z.leb_le | apply Z.ltb_lt]; lia).
      by rewrite Hx.
    + rewrite Z.mod_small in Hx by lia.
      rewrite andb_true_intro by (split; [apply Z.leb_le | apply Z.ltb_lt]; lia).
      by rewrite Hx.
  - intros Hout. destruct (Z.ltb_spec idx 0).
    + replace (0 <=? n + idx)%Z with false by (symmetry; apply Z.leb_gt; lia).
      done.
    + replace (idx <? n)%Z with false by (symmetry; apply Z.ltb_ge; lia).
      by rewrite andb_false_r.
Qed.

(** X1: [ids[idx]] accepts exactly the indices from [-n] to [n - 1], [n] the
    length of the array; an accepted index reads the element at [idx mod n],
    so a negative one counts from the end; any other index raises
    [IndexError]. *)
Theorem np_getitem_bounds (a : list string) (idx : Z) :
  ((- Z.of_nat (length a) ≤ idx < Z.of_nat (length a))%Z →
   ∃ x, a !! Z.to_nat (idx `mod` Z.of_nat (length a)) = Some x
        ∧ np_getitem a idx = inr x)
  ∧ ((idx < - Z.of_nat (length a) ∨ Z.of_nat (length a) ≤ idx)%Z →
     np_getitem a idx = inl (IndexError idx)).
Proof. apply np_getitem_spec. Qed.

(** ** What identify does to the world *)

Section quiet_facts.
Context `{Backend}.

Lemma quiet_ret {A} (a : A) : quiet (ret a).
Proof. intros w. exists []. by rewrite emit_nil. Qed.

Lemma quiet_raise {A} e : quiet (raise (A := A) e).
Proof. intros w. exists []. by rewrite emit_nil. Qed.

Lemma quiet_lift {A} (r : Exception + A) : quiet (lift r).
Proof. intros w. exists []. by rewrite emit_nil. Qed.

Lemma quiet_print l : quiet (print l).
Proof. intros w. by exists [l]. Qed.

Lemma quiet_assert b msg : quiet (assert b msg).
Proof. destruct b; [apply quiet_ret | apply quiet_raise]. Qed.

Lemma quiet_read_with {A} p (dec : File → option A) : quiet (read_with p dec).
Proof. intros w. exists []. by rewrite emit_nil, read_with_world. Qed.

Lemma quiet_bind {A B} (c : Py A) (k : A → Py B) :
  quiet c → (∀ a, quiet (k a)) → quiet (bind c k).
Proof.
  intros Hc Hk w. unfold bind. destruct (Hc w) as [l1 E1].
  destruct (c w) as [w1 [e|a]]; cbn [fst] in *.
  - by exists l1.
  - destruct (Hk a w1) as [l2 E2]. exists (l1 ++ l2).
    by rewrite E2, E1, emit_emit.
Qed.

Lemma quiet_print_results ids meta res : quiet (print_results ids meta res).
Proof.
  induction res as [|[d idx] res IH]; [apply quiet_ret|].
  cbn [print_results].
  apply quiet_bind; [apply quiet_lift|]. intros cid.
  apply quiet_bind; [apply quiet_lift|]. intros m.
  apply quiet_bind; [apply quiet_print | done].
Qed.

Lemma quiet_load_index : quiet load_index.
Proof.
  unfold load_index.
  apply quiet_bind; [apply quiet_read_with|]. intros index.
  apply quiet_bind; [apply quiet_read_with|]. intros ids.
  apply quiet_bind; [apply quiet_read_with|]. intros meta.
  apply quiet_ret.
Qed.

Lemma quiet_identify topk : quiet (identify_first_image_inline topk).
Proof.
  unfold identify_first_image_inline.
  apply quiet_bind; [apply quiet_read_with|]. intros df.
  apply quiet_bind; [apply quiet_assert|]. intros _.
  destruct df as [|row0 df]; [apply quiet_ret|].
  apply quiet_bind; [apply quiet_print|]. intros _.
  apply quiet_bind; [apply quiet_load_index|]. intros [[index ids] meta].
  apply quiet_bind; [apply quiet_read_with|]. intros qimg.
  apply quiet_bind; [apply quiet_lift|]. intros res.
  apply quiet_bind; [apply quiet_print|]. intros _.
  apply quiet_print_results.
Qed.

End quiet_facts.

(** X2: identify never writes: whatever [topk] and whatever the disk holds,
    and whether it ends normally or on an exception, the disk afterwards is
    the disk before, and no intermediate disk state was added. *)
Theorem identify_reads_only `{Backend} (topk : nat) (w : World) :
  disk (identify_first_image_inline topk w).1 = disk w
  ∧ past (identify_first_image_inline topk w).1 = past w.
Proof. destruct (quiet_identify topk w) as [ls ->]. done. Qed.

(** ** Identify without its artifacts *)

Section identify_facts.
Context `{Backend}.

Lemma identify_start (w : World) row0 rest topk :
  disk w !! CSV_PATH = Some (Csv (row0 :: rest)) →
  identify_first_image_inline topk w
  = (do (index, ids, meta) <- load_index;
     do qimg <- Image_open (row_image_path row0);
     do res <- lift (IndexFlatIP_search index (embed qimg) topk);
     print TopResults;;
     print_results ids meta res)
      (emit [QueryImage (row_image_path row0)] w).
Proof.
  intros Hcsv. unfold identify_first_image_inline.
  unfold bind at 1. rewrite (pd_read_csv_ok _ (row0 :: rest)) by done.
  unfold bind at 1. cbn [length Nat.eqb negb assert ret].
  by unfold bind at 1.
Qed.

Lemma load_index_ok (w : World) xb ids meta :
  disk w !! FAISS_PATH = Some (FaissIndex xb) →
  disk w !! IDS_NPY = Some (Npy ids) →
  disk w !! META_JSON = Some (Json meta) →
  load_index w = (w, inr (xb, ids, meta)).
Proof.
  intros Hf Hi Hm.
  unfold load_index, faiss_read_index, np_load, json_load, bind, ret, read_with.
  by rewrite Hf, Hi, Hm.
Qed.

Lemma load_index_missing (w : World) p :
  (p = FAISS_PATH ∧ disk w !! FAISS_PATH = None)
  ∨ (p = IDS_NPY ∧ (∃ xb, disk w !! FAISS_PATH = Some (FaissIndex xb))
     ∧ disk w !! IDS_NPY = None)
  ∨ (p = META_JSON ∧ (∃ xb, disk w !! FAISS_PATH = Some (FaissIndex xb))
     ∧ (∃ ids, disk w !! IDS_NPY = Some (Npy ids))
     ∧ disk w !! META_JSON = None) →
  load_index w = (w, inl (FileNotFoundError p)).
Proof.
  unfold load_index, faiss_read_index, np_load, json_load, bind, ret, read_with.
  intros [[-> Hf]|[(-> & [xb Hf] & Hi)|(-> & [xb Hf] & [ids Hi] & Hm)]].
  - by rewrite Hf.
  - by rewrite Hf, Hi.
  - by rewrite Hf, Hi, Hm.
Qed.

Lemma print_results_all ids meta res (w : World) :
  Forall (λ e, is_Some (result_line ids meta e)) res →
  print_results ids meta res w
  = (emit (omap (result_line ids meta) res) w, inr tt).
Proof.
  intros Hall. revert w.
  induction Hall as [|[d idx] res [l Hl] _ IH]; intros w.
  - cbn. by rewrite emit_nil.
  - rewrite print_results_cons. cbn [omap list_omap]. rewrite Hl.
    unfold result_line in Hl. cbn [fst snd] in Hl.
    destruct (np_getitem ids idx) as [|cid]; [done|].
    unfold dict_getitem. destruct (dict_get cid meta) as [m|]; [|done].
    injection Hl as <-. by rewrite IH, emit_emit.
Qed.

End identify_facts.

(** X3: with a catalogue on disk and an artifact missing, identify prints
    the query line and stops with [FileNotFoundError] on the first missing
    artifact, in the order index, ids, metadata; the query picture is not
    opened and nothing is searched. *)
Theorem identify_missing_artifact `{Backend} (w : World) row0 rest topk :
  disk w !! CSV_PATH = Some (Csv (row0 :: rest)) →
  let w1 := emit [QueryImage (row_image_path row0)] w in
  (disk w !! FAISS_PATH = None →
   identify_first_image_inline topk w = (w1, inl (FileNotFoundError FAISS_PATH)))
  ∧ (∀ xb, disk w !! FAISS_PATH = Some (FaissIndex xb) →
       disk w !! IDS_NPY = None →
       identify_first_image_inline topk w
       = (w1, inl (FileNotFoundError IDS_NPY)))
  ∧ (∀ xb ids, disk w !! FAISS_PATH = Some (FaissIndex xb) →
       disk w !! IDS_NPY = Some (Npy ids) →
       disk w !! META_JSON = None →
       identify_first_image_inline topk w
       = (w1, inl (FileNotFoundError META_JSON))).
Proof.
  intros Hcsv w1. rewrite (identify_start w row0 rest) by done. fold w1.
  split_and!.
  - intros Hf. unfold bind at 1.
    rewrite (load_index_missing w1 FAISS_PATH); [done|].
    left. split; [done | exact Hf].
  - intros xb Hf Hi. unfold bind at 1.
    rewrite (load_index_missing w1 IDS_NPY); [done|].
    right; left. split_and!; [done | by exists xb | exact Hi].
  - intros xb ids Hf Hi Hm. unfold bind at 1.
    rewrite (load_index_missing w1 META_JSON); [done|].
    right; right. split_and!; [done | by exists xb | by exists ids | exact Hm].
Qed.

(** ** Identify after a build *)

Section pipeline_facts.
Context `{Backend}.

Lemma search_entries (xb : list vec) q k res :
  IndexFlatIP_search xb q k = inr res →
  length res = k
  ∧ Forall (λ e, e.2 = (-1)%Z ∨ (0 ≤ e.2 < Z.of_nat (length xb))%Z) res.
Proof.
  unfold IndexFlatIP_search. destruct (k =? 0)%nat; [done|]. intros [= <-].
  split.
  - rewrite length_app, length_replicate, length_take, length_ranked. lia.
  - apply Forall_app. split.
    + apply Forall_forall. intros e He%(subseteq_take k).
      apply ranked_elem in He as (i & y & Hy & ->). right. cbn.
      apply lookup_lt_Some in Hy. lia.
    + apply Forall_forall. intros e [-> _]%elem_of_replicate. by left.
Qed.

Lemma search_positive (xb : list vec) q k :
  0 < k → ∃ res, IndexFlatIP_search xb q k = inr res.
Proof.
  intros Hk. unfold IndexFlatIP_search.
  destruct (Nat.eqb_spec k 0); [lia | eauto].
Qed.

(** A label a search can hand back resolves, once every id has metadata. *)
Lemma result_line_resolves ids (meta : dict Meta) (e : score * Z) :
  ids ≠ [] →
  (∀ cid, cid ∈ ids → is_Some (dict_get cid meta)) →
  e.2 = (-1)%Z ∨ (0 ≤ e.2 < Z.of_nat (length ids))%Z →
  ∃ cid m, cid ∈ ids ∧ dict_get cid meta = Some m
           ∧ result_line ids meta e
             = Some (ResultRow cid (name m) e.1 (set_ m) (number m)).
Proof.
  intros Hne Hmeta Hlabel.
  assert ((- Z.of_nat (length ids) ≤ e.2 < Z.of_nat (length ids))%Z) as Hr.
  { destruct ids; [done|]. cbn [length] in *. lia. }
  destruct (np_getitem_spec ids e.2) as [Hin _].
  destruct (Hin Hr) as (cid & Hcid & Hget).
  assert (cid ∈ ids) as Hel by (by eapply list_elem_of_lookup_2).
  destruct (Hmeta cid Hel) as [m Hm].
  exists cid, m. split_and!; [done..|].
  unfold result_line. by rewrite Hget, Hm.
Qed.

Lemma result_lines_resolve ids (meta : dict Meta) (res : list (score * Z)) :
  ids ≠ [] →
  (∀ cid, cid ∈ ids → is_Some (dict_get cid meta)) →
  Forall (λ e, e.2 = (-1)%Z ∨ (0 ≤ e.2 < Z.of_nat (length ids))%Z) res →
  Forall (λ e, is_Some (result_line ids meta e)) res
  ∧ length (omap (result_line ids meta) res) = length res
  ∧ Forall (λ l, ∃ cid m sim,
              l = ResultRow cid (name m) sim (set_ m) (number m)
              ∧ cid ∈ ids ∧ dict_get cid meta = Some m)
      (omap (result_line ids meta) res).
Proof.
  intros Hne Hmeta. induction 1 as [|e res He _ (IH1 & IH2 & IH3)]; [done|].
  destruct (result_line_resolves ids meta e Hne Hmeta He)
    as (cid & m & Hel & Hm & Hline).
  cbn [omap list_omap]. rewrite Hline. split_and!.
  - constructor; [by rewrite Hline | done].
  - cbn [length]. by rewrite IH2.
  - constructor; [|done]. by exists cid, m, e.1.
Qed.

Lemma usable_skip_length (fs : gmap string File) rows :
  Forall (readable fs) rows →
  length (usable fs rows) + length (skip_lines fs rows) = length rows.
Proof.
  induction 1 as [|row rows [Hn|[im Him]] _ IH]; [done|..];
    unfold usable, skip_lines in *; cbn [omap list_omap].
  - rewrite Hn. cbn [length]. lia.
  - rewrite Him. cbn [length]. lia.
Qed.

Lemma usable_sublist (fs : gmap string File) rows :
  (usable fs rows).*1 `sublist_of` rows.
Proof.
  induction rows as [|row rows IH]; [done|].
  unfold usable in *. cbn [omap list_omap].
  destruct (fs !! row_image_path row) as [[]|];
    try (by apply sublist_cons).
  rewrite fmap_cons. by apply sublist_skip.
Qed.

Lemma meta_after_get_other (m : dict Meta) (us : list (Row * image)) cid :
  cid ∉ (λ u, row_id u.1) <$> us →
  dict_get cid (meta_after m us) = dict_get cid m.
Proof.
  revert m. induction us as [|u us IH]; intros m Hnot; [done|].
  rewrite fmap_cons, not_elem_of_cons in Hnot. destruct Hnot as [Hne Hnot].
  cbn [meta_after foldl].
  fold (meta_after (dict_set (row_id u.1) (meta_of_row u.1) m) us).
  rewrite IH by done. by apply dict_get_set_ne.
Qed.

Lemma meta_after_get_unique (m : dict Meta) (us : list (Row * image)) u :
  NoDup ((λ u, row_id u.1) <$> us) → u ∈ us →
  dict_get (row_id u.1) (meta_after m us) = Some (meta_of_row u.1).
Proof.
  revert m. induction us as [|u0 us IH]; intros m Hnd Hin.
  - by apply elem_of_nil in Hin.
  - rewrite fmap_cons in Hnd. apply NoDup_cons in Hnd as [Hfresh Hnd].
    cbn [meta_after foldl].
    fold (meta_after (dict_set (row_id u0.1) (meta_of_row u0.1) m) us).
    apply elem_of_cons in Hin as [->|Hin].
    + rewrite meta_after_get_other by done. apply dict_get_set_eq.
    + by apply IH.
Qed.

End pipeline_facts.

(** X4: build, then identify.  After a successful build, if the picture of
    the first catalogue row is (still) a picture on disk, identify with a
    positive [topk] ends normally and prints, after its two header lines,
    exactly [topk] result rows; each row shows an id of the persisted id
    sequence with the name, set and number of that id's metadata. *)
Theorem identify_after_build `{Backend} (w w1 : World) row0 rest im topk :
  build_index_inline w = (w1, inr tt) →
  disk w !! CSV_PATH = Some (Csv (row0 :: rest)) →
  disk w1 !! row_image_path row0 = Some (Picture im) →
  0 < topk →
  ∃ ids meta lines,
    disk w1 !! IDS_NPY = Some (Npy ids)
    ∧ disk w1 !! META_JSON = Some (Json meta)
    ∧ identify_first_image_inline topk w1
      = (emit (QueryImage (row_image_path row0) :: TopResults :: lines) w1,
         inr tt)
    ∧ length lines = topk
    ∧ Forall (λ l, ∃ cid m sim,
                l = ResultRow cid (name m) sim (set_ m) (number m)
                ∧ cid ∈ ids ∧ dict_get cid meta = Some m) lines.
Proof.
  intros (df & Hcsv & Hall & Hsome & Hw1)%build_inr Hcsv0 Hpic Hk.
  assert (df = row0 :: rest) as -> by congruence.
  set (fs := disk w) in *.
  set (ids := built_ids fs (row0 :: rest)) in *.
  set (vecs := built_vecs fs (row0 :: rest)) in *.
  set (meta := built_meta fs (row0 :: rest)) in *.
  destruct (saved_lookup ids vecs meta
              (emit (skip_lines fs (row0 :: rest)) w)) as (Hi & Hm & Hf).
  rewrite <- Hw1 in Hi, Hm, Hf.
  assert (disk w1 !! CSV_PATH = Some (Csv (row0 :: rest))) as Hcsv1.
  { rewrite Hw1, saved_lookup_other; [done|].
    destruct paths_ne as (_ & _ & _ & ? & ? & ?).
    unfold artifact_paths. rewrite !not_elem_of_cons.
    split_and!; [done.. | apply not_elem_of_nil]. }
  destruct (search_positive vecs (embed im) topk Hk) as [res Hres].
  destruct (search_entries vecs (embed im) topk res Hres) as [Hlen Hlab].
  assert (length vecs = length ids) as Hvi
    by (symmetry; apply built_lengths).
  rewrite Hvi in Hlab.
  assert (ids ≠ []) as Hne.
  { unfold ids, built_ids. destruct (usable fs (row0 :: rest)); done. }
  assert (∀ cid, cid ∈ ids → is_Some (dict_get cid meta)) as Hmeta.
  { intros cid Hin. apply dict_get_is_Some.
    by apply (built_meta_keys fs (row0 :: rest)). }
  destruct (result_lines_resolve ids meta res Hne Hmeta Hlab)
    as (Hsome' & Hlines & Hrows).
  exists ids, meta, (omap (result_line ids meta) res).
  split_and!; [done | done | | by rewrite Hlines | done].
  rewrite (identify_start w1 row0 rest) by done.
  set (w2 := emit [QueryImage (row_image_path row0)] w1).
  unfold bind at 1. rewrite (load_index_ok w2 vecs ids meta) by done.
  unfold bind at 1. unfold Image_open, read_with.
  change (disk w2) with (disk w1). rewrite Hpic.
  unfold bind at 1, lift. rewrite Hres.
  unfold bind at 1, print. rewrite print_results_all by done.
  unfold w2, emit. cbn. by rewrite <- !app_assoc.
Qed.

(** X5: identify always queries the picture of the first catalogue row, also
    when the build skipped that row.  If that picture is absent, a build
    that succeeded on the other rows is followed by an identify that prints
    the query line and stops with [FileNotFoundError] on the picture. *)
Theorem identify_query_picture_missing `{Backend}
    (w w1 : World) row0 rest topk :
  build_index_inline w = (w1, inr tt) →
  disk w !! CSV_PATH = Some (Csv (row0 :: rest)) →
  disk w !! row_image_path row0 = None →
  row_image_path row0 ∉ artifact_paths →
  identify_first_image_inline topk w1
  = (emit [QueryImage (row_image_path row0)] w1,
     inl (FileNotFoundError (row_image_path row0))).
Proof.
  intros (df & Hcsv & Hall & Hsome & Hw1)%build_inr Hcsv0 Hnone Hout.
  assert (df = row0 :: rest) as -> by congruence.
  set (fs := disk w) in *.
  set (ids := built_ids fs (row0 :: rest)) in *.
  set (vecs := built_vecs fs (row0 :: rest)) in *.
  set (meta := built_meta fs (row0 :: rest)) in *.
  destruct (saved_lookup ids vecs meta
              (emit (skip_lines fs (row0 :: rest)) w)) as (Hi & Hm & Hf).
  rewrite <- Hw1 in Hi, Hm, Hf.
  assert (disk w1 !! CSV_PATH = Some (Csv (row0 :: rest))) as Hcsv1.
  { rewrite Hw1, saved_lookup_other; [done|].
    destruct paths_ne as (_ & _ & _ & ? & ? & ?).
    unfold artifact_paths. rewrite !not_elem_of_cons.
    split_and!; [done.. | apply not_elem_of_nil]. }
  assert (disk w1 !! row_image_path row0 = None) as Hnone1.
  { by rewrite Hw1, saved_lookup_other. }
  rewrite (identify_start w1 row0 rest) by done.
  set (w2 := emit [QueryImage (row_image_path row0)] w1).
  unfold bind at 1. rewrite (load_index_ok w2 vecs ids meta) by done.
  unfold bind at 1. unfold Image_open, read_with.
  change (disk w2) with (disk w1). by rewrite Hnone1.
Qed.

(** ** More on what a build leaves *)

(** X6: a build that ends on an exception, whichever it is, has written
    nothing: the disk is as before and no intermediate disk state was
    added; all it did was print. *)
Theorem failed_build_writes_nothing `{Backend} (w w' : World) e :
  build_index_inline w = (w', inl e) →
  disk w' = disk w ∧ past w' = past w ∧ ∃ ls, stdout w' = stdout w ++ ls.
Proof.
  intros Hrun.
  assert (∃ ls, w' = emit ls w) as [ls ->]; [|by eauto].
  destruct (disk w !! CSV_PATH) as [f|] eqn:Hcsv; cycle 1.
  { unfold build_index_inline, bind, pd_read_csv, read_with in Hrun.
    rewrite Hcsv in Hrun. injection Hrun as <- _.
    exists []. by rewrite emit_nil. }
  destruct f as [df| | | | |];
    try (unfold build_index_inline, bind, pd_read_csv, read_with in Hrun;
         rewrite Hcsv in Hrun; injection Hrun as <- _;
         exists []; by rewrite emit_nil).
  destruct (first_unreadable (disk w) df)
    as [Hall|(l1 & r & l2 & -> & Hl1 & Hu)].
  - destruct (usable (disk w) df) as [|u us] eqn:E.
    + destruct (build_empty w df) as [msg Hmsg]; try done.
      rewrite Hmsg in Hrun. injection Hrun as <- _. eauto.
    + rewrite (build_saved w df) in Hrun; [done..|by rewrite E].
  - rewrite (build_abort w l1 r l2) in Hrun by done.
    injection Hrun as <- _. eauto.
Qed.

(** X7: in a successful build every catalogue row is accounted for once:
    the count printed on the closing line is the number of ids saved, and
    that count plus the number of [[skip] missing] lines printed is the
    number of rows of the catalogue. *)
Theorem every_row_embedded_or_skipped `{Backend} (w w' : World) df :
  build_index_inline w = (w', inr tt) →
  disk w !! CSV_PATH = Some (Csv df) →
  ∃ ids skips,
    disk w' !! IDS_NPY = Some (Npy ids)
    ∧ stdout w' = stdout w ++ skips ++ [IndexSaved (length ids) FAISS_PATH]
    ∧ Forall (λ l, ∃ row, row ∈ df ∧ disk w !! row_image_path row = None
                          ∧ l = SkipMissing (row_image_path row)) skips
    ∧ length ids + length skips = length df.
Proof.
  intros (df' & Hcsv & Hall & Hsome & ->)%build_inr Hcsv'.
  assert (df' = df) as -> by congruence.
  exists (built_ids (disk w) df), (skip_lines (disk w) df). split_and!.
  - apply saved_lookup.
  - cbn [saved emit stdout]. by rewrite <- app_assoc.
  - apply Forall_forall. intros l. unfold skip_lines.
    intros (row & Hin & Hrow)%list_elem_of_omap.
    exists row. destruct (disk w !! row_image_path row); [done|].
    by injection Hrow as <-.
  - unfold built_ids. rewrite length_fmap. by apply usable_skip_length.
Qed.

(** X8: positions line up.  After a successful build the id at position
    [i] and the vector at position [i] come from one and the same catalogue
    row: the vector is the embedding of that row's picture; and the rows
    appear in the artifacts in catalogue order. *)
Theorem ids_and_vectors_aligned `{Backend} (w w' : World) df :
  build_index_inline w = (w', inr tt) →
  disk w !! CSV_PATH = Some (Csv df) →
  ∃ ids vecs rows,
    disk w' !! IDS_NPY = Some (Npy ids)
    ∧ disk w' !! FAISS_PATH = Some (FaissIndex vecs)
    ∧ rows `sublist_of` df
    ∧ ids = row_id <$> rows
    ∧ ∀ i row, rows !! i = Some row →
        ids !! i = Some (row_id row)
        ∧ ∃ im, disk w !! row_image_path row = Some (Picture im)
                ∧ vecs !! i = Some (embed im).
Proof.
  intros (df' & Hcsv & Hall & Hsome & ->)%build_inr Hcsv'.
  assert (df' = df) as -> by congruence.
  exists (built_ids (disk w) df), (built_vecs (disk w) df),
         (usable (disk w) df).*1.
  split_and!.
  - apply saved_lookup.
  - apply saved_lookup.
  - apply usable_sublist.
  - unfold built_ids. by rewrite <- list_fmap_compose.
  - intros i row Hi. rewrite list_lookup_fmap in Hi.
    destruct (usable (disk w) df !! i) as [[row' im]|] eqn:E; [|done].
    injection Hi as <-. split.
    + unfold built_ids. by rewrite list_lookup_fmap, E.
    + exists im. split.
      * apply list_elem_of_lookup_2 in E. by apply usable_elem in E as [_ ?].
      * unfold built_vecs. by rewrite list_lookup_fmap, E.
Qed.

(** X9: with no id repeated among the embedded rows, the metadata stored
    under an id is that of the row carrying the id: name, set and number
    as in the row, the picture path, and the hp cell parsed. *)
Theorem unique_ids_own_metadata `{Backend} (w w' : World) df :
  build_index_inline w = (w', inr tt) →
  disk w !! CSV_PATH = Some (Csv df) →
  ∃ ids meta,
    disk w' !! IDS_NPY = Some (Npy ids)
    ∧ disk w' !! META_JSON = Some (Json meta)
    ∧ (NoDup ids →
       ∀ row im, row ∈ df →
         disk w !! row_image_path row = Some (Picture im) →
         dict_get (row_id row) meta = Some (meta_of_row row)).
Proof.
  intros (df' & Hcsv & Hall & Hsome & ->)%build_inr Hcsv'.
  assert (df' = df) as -> by congruence.
  exists (built_ids (disk w) df), (built_meta (disk w) df). split_and!.
  - apply saved_lookup.
  - apply saved_lookup.
  - intros Hnd row im Hin Hpic.
    assert ((row, im) ∈ usable (disk w) df) as Hu.
    { unfold usable. apply list_elem_of_omap. exists row.
      split; [done|]. by rewrite Hpic. }
    unfold built_meta.
    apply (meta_after_get_unique [] (usable (disk w) df) (row, im)); done.
Qed.

(** ** The hp cell *)

Section hp_facts.

Lemma pretty_N_char_digit (x : N) :
  (x < 10)%N →
  is_digit (pretty_N_char x) = true
  ∧ (N_of_ascii (pretty_N_char x) - 48)%N = x.
Proof.
  intros Hx.
  assert (x = 0 ∨ x = 1 ∨ x = 2 ∨ x = 3 ∨ x = 4 ∨ x = 5
          ∨ x = 6 ∨ x = 7 ∨ x = 8 ∨ x = 9)%N as Hcases by lia.
  repeat (destruct Hcases as [->|Hcases]; [by vm_compute|]).
  subst x. by vm_compute.
Qed.

Lemma int_digits_acc (s : string) (acc : N) :
  int_digits acc s
  = (acc * 10 ^ N.of_nat (String.length s) + int_digits 0 s)%N.
Proof.
  revert acc. induction s as [|c s IH]; intros acc.
  - cbn. lia.
  - cbn [int_digits String.length].
    rewrite (IH (10 * acc + _)%N), (IH (10 * 0 + _)%N).
    rewrite Nat2N.inj_succ, N.pow_succ_r'. lia.
Qed.

Lemma pretty_N_go_value (x : N) (s : string) :
  all_digits s = true →
  all_digits (pretty_N_go x s) = true
  ∧ int_digits 0 (pretty_N_go x s)
    = (x * 10 ^ N.of_nat (String.length s) + int_digits 0 s)%N.
Proof.
  revert s. induction (N.lt_wf_0 x) as [x _ IH]; intros s Hs.
  destruct (decide (x = 0)%N) as [->|Hx].
  - rewrite pretty_N_go_0. split; [done | lia].
  - rewrite pretty_N_go_step by lia.
    destruct (pretty_N_char_digit (x `mod` 10))
      as [Hd Hv]; [by apply N.mod_lt|].
    destruct (IH (x `div` 10)%N) with
      (s := String (pretty_N_char (x `mod` 10)) s) as [IH1 IH2].
    { apply N.div_lt; lia. }
    { cbn [all_digits]. by rewrite Hd, Hs. }
    split; [done|]. rewrite IH2.
    cbn [int_digits String.length]. rewrite Hv.
    rewrite (int_digits_acc s), Nat2N.inj_succ, N.pow_succ_r'.
    pose proof (N.div_mod' x 10) as Hdm.
    set (q := (x `div` 10)%N) in *. set (r := (x `mod` 10)%N) in *.
    set (P := (10 ^ N.of_nat (String.length s))%N).
    rewrite Hdm. lia.
Qed.

Lemma pretty_N_parses (n : N) :
  isdigit (pretty n) = true ∧ int_digits 0 (pretty n) = n.
Proof.
  unfold pretty, pretty_N. destruct (decide (n = 0)%N) as [->|Hn]; [done|].
  destruct (pretty_N_go_value n "") as [Hd Hv]; [done|].
  change (N.of_nat (String.length "")) with 0%N in Hv.
  change (int_digits 0 "") with 0%N in Hv.
  rewrite N.pow_0_r, N.mul_1_r, N.add_0_r in Hv. split; [|done].
  unfold isdigit. destruct (pretty_N_go n "") eqn:E; [|done].
  change (int_digits 0 "") with 0%N in Hv. congruence.
Qed.

Lemma all_digits_app_false (s1 s2 : string) c :
  is_digit c = false → all_digits (s1 +:+ String c s2) = false.
Proof.
  intros Hc. induction s1 as [|c1 s1 IH].
  - change (is_digit c && all_digits s2 = false). by rewrite Hc.
  - change (is_digit c1 && all_digits (s1 +:+ String c s2) = false).
    rewrite IH. apply andb_false_r.
Qed.

End hp_facts.

(** X10: the hp of a metadata record.  A cell holding the decimal numeral
    of a natural number gives that number; an empty cell gives no hp; a
    cell with any character that is not a decimal digit (a sign, a decimal
    point, a blank) gives no hp. *)
Theorem hp_parses_decimal (row : Row) :
  (∀ n : N, row_hp row = pretty n → hp (meta_of_row row) = Some n)
  ∧ (row_hp row = "" → hp (meta_of_row row) = None)
  ∧ (∀ s1 c s2, row_hp row = s1 +:+ String c s2 → is_digit c = false →
       hp (meta_of_row row) = None).
Proof.
  unfold meta_of_row; cbn [hp]. split_and!.
  - intros n ->. destruct (pretty_N_parses n) as [-> ->]. done.
  - by intros ->.
  - intros s1 c s2 -> Hc.
    assert (isdigit (s1 +:+ String c s2) = false) as ->; [|done].
    unfold isdigit.
    pose proof (all_digits_app_false s1 s2 c Hc) as Hall.
    by destruct (s1 +:+ String c s2).
Qed.
